(** * The QFsm dispatcher of fsm_cpp/qfsm.hpp and its client fsm_cpp/main.cpp

    The template [QFsm<F>] keeps one member-function pointer, [m_state], and
    offers [init] and [dispatch].  State handlers are member functions of the
    derived class [F]; they read the event's signal, may assign [m_state]
    (the macro [Q_TRAN]) and return an [int].

    The embedding is shallow.  A handler is named by a value of a type
    [Handler] (the identity of the member function) and its code is given by
    a table [body]; a member-function pointer is an [option Handler], with
    [None] for [nullptr].  What a handler can touch is a record [Fsm]: the
    slot [m_state] and the data of the derived object.  [init] and
    [dispatch] run in a small monad that threads this record, collects the
    handler invocations they make, and fails where the C++ has no defined
    behaviour (a call through a null member pointer).

    Handler bodies are total state transformers: a handler that calls
    [dispatch] on its own machine again is outside this model. *)

From Stdlib Require Import ZArith List String Ascii Bool Lia.
Import ListNotations.
Open Scope Z_scope.

(** ** qfsm.hpp: types, result codes, reserved signals *)

(** [typedef int QState; typedef int QSignal;]  Only small constants are
    ever stored, so no wrap-around is involved. *)
Definition QState : Type := Z.
Definition QSignal : Type := Z.

Record QEvent : Type := { sig : QSignal }.

(** [enum QEventResult]: the first enumerator is 0, each next one is the
    previous plus one. *)
Definition Q_EVENT_HANDLED : QState := 0.
Definition Q_EVENT_IGNORED : QState := Q_EVENT_HANDLED + 1.
Definition Q_EVENT_TRAN : QState := Q_EVENT_IGNORED + 1.

(** [enum QReservedSignal] *)
Definition Q_EMPTY_SIG : QSignal := 0.
Definition Q_ENTRY_SIG : QSignal := Q_EMPTY_SIG + 1.
Definition Q_EXIT_SIG : QSignal := Q_ENTRY_SIG + 1.
Definition Q_INIT_SIG : QSignal := Q_EXIT_SIG + 1.

(** [static const QEvent m_reserved_ev[]]: one table for every instance of
    the template; it is not part of the machine's state. *)
Definition m_reserved_ev : list QEvent :=
  [ {| sig := Q_EMPTY_SIG |};
    {| sig := Q_ENTRY_SIG |};
    {| sig := Q_EXIT_SIG |};
    {| sig := Q_INIT_SIG |} ].

(** Reading [tbl[i]]; outside the array the C++ read is undefined. *)
Definition at_index (tbl : list QEvent) (i : Z) : option QEvent :=
  if i <? 0 then None else nth_error tbl (Z.to_nat i).

(** The event object handed to a handler: an element of the reserved table
    (a synthetic event) or the event the caller gave to [dispatch]. *)
Inductive EvRef : Type :=
| reserved_ev (i : QSignal)
| caller_ev (e : QEvent).

Definition deref (a : EvRef) : option QEvent :=
  match a with
  | reserved_ev i => at_index m_reserved_ev i
  | caller_ev e => Some e
  end.

(** ** The machine and the dispatcher monad *)

Section Dispatcher.

Context {Handler Data : Type}.

(** The object as a handler sees it: the slot of [QFsm] and the rest of
    the derived object. *)
Record Fsm : Type := { m_state : option Handler; self : Data }.

Definition HandlerBody : Type := QEvent -> Fsm -> QState * Fsm.

(** One handler invocation as observed from outside: which handler, which
    event object, what it returned. *)
Record Call : Type := { who : Handler; what : EvRef; ret : QState }.

(** [QFsm() : m_state(nullptr)] *)
Definition QFsm_ctor (d : Data) : Fsm := {| m_state := None; self := d |}.

Definition assign_m_state (target : option Handler) (st : Fsm) : Fsm :=
  {| m_state := target; self := self st |}.

Definition with_self (d : Data) (st : Fsm) : Fsm :=
  {| m_state := m_state st; self := d |}.

(** The three macros a handler returns through. *)
Definition Q_HANDLED (st : Fsm) : QState * Fsm := (Q_EVENT_HANDLED, st).
Definition Q_IGNORED (st : Fsm) : QState * Fsm := (Q_EVENT_IGNORED, st).
Definition Q_TRAN (target : option Handler) (st : Fsm) : QState * Fsm :=
  (Q_EVENT_TRAN, assign_m_state target st).

(** A run yields a value, the new object and the invocations made, or
    [None] where the C++ is undefined. *)
Definition Run (A : Type) : Type := Fsm -> option (A * Fsm * list Call).

Definition pure {A : Type} (a : A) : Run A := fun st => Some (a, st, []).

Definition undefined {A : Type} : Run A := fun _ => None.

Definition bind {A B : Type} (m : Run A) (f : A -> Run B) : Run B :=
  fun st =>
    match m st with
    | None => None
    | Some (a, st1, l1) =>
        match f a st1 with
        | None => None
        | Some (b, st2, l2) => Some (b, st2, l1 ++ l2)
        end
    end.

Definition get_m_state : Run (option Handler) :=
  fun st => Some (m_state st, st, []).

Definition set_m_state (target : option Handler) : Run unit :=
  fun st => Some (tt, assign_m_state target st, []).

Variable body : Handler -> HandlerBody.

(** [(static_cast<F *>(this)->*p)(ev)] *)
Definition invoke (p : option Handler) (a : EvRef) : Run QState :=
  fun st =>
    match p, deref a with
    | Some h, Some ev =>
        let res := body h ev st in
        Some (fst res, snd res, [ {| who := h; what := a; ret := fst res |} ])
    | _, _ => None
    end.

Notation "x <- c1 ;; c2" := (bind c1 (fun x => c2))
  (at level 61, c1 at next level, right associativity).
Notation "c1 ;; c2" := (bind c1 (fun _ => c2))
  (at level 61, right associativity).

(** [void init(QStateHandler init_state)] *)
Definition init (init_state : option Handler) : Run unit :=
  set_m_state init_state ;;
  p <- get_m_state ;;
  invoke p (reserved_ev Q_INIT_SIG) ;;
  q <- get_m_state ;;
  invoke q (reserved_ev Q_ENTRY_SIG) ;;
  pure tt.

(** [void dispatch(const QEvent &e)] *)
Definition dispatch (e : QEvent) : Run unit :=
  p <- get_m_state ;;
  match p with
  | None => pure tt
  | Some _ =>
      let s := p in
      r <- invoke s (caller_ev e) ;;
      if r =? Q_EVENT_TRAN then
        invoke s (reserved_ev Q_EXIT_SIG) ;;
        q <- get_m_state ;;
        invoke q (reserved_ev Q_ENTRY_SIG) ;;
        pure tt
      else pure tt
  end.

(** A caller dispatching one event after the other. *)
Fixpoint dispatch_all (es : list QEvent) : Run unit :=
  match es with
  | [] => pure tt
  | e :: es' => dispatch e ;; dispatch_all es'
  end.

(** [for (int i = 0; i < n; i++) dispatch(e);] *)
Definition dispatch_n (n : nat) (e : QEvent) : Run unit :=
  dispatch_all (repeat e n).

(** *** What one handler invocation amounts to

    The outcome of running handler [h] on event [ev] in object [st],
    described by the macro it returns through. *)


(** [return Q_IGNORED();] the slot is as before. *)
Definition ignored_at (h : Handler) (ev : QEvent) (st : Fsm) : Prop :=
  exists d, body h ev st = Q_IGNORED (with_self d st).

(** [return Q_TRAN(&F::target);] *)
Definition requests_at (h : Handler) (ev : QEvent) (st : Fsm)
  (target : Handler) : Prop :=
  exists d, body h ev st = Q_TRAN (Some target) (with_self d st).

(** The invocation leaves the slot as it found it, whatever it returns. *)
Definition keeps_slot (h : Handler) (ev : QEvent) (st : Fsm) : Prop :=
  m_state (snd (body h ev st)) = m_state st.

(** The object after the invocation. *)
Definition after (h : Handler) (ev : QEvent) (st : Fsm) : Fsm :=
  snd (body h ev st).


End Dispatcher.

Arguments Fsm : clear implicits.
Arguments Call : clear implicits.
Arguments HandlerBody : clear implicits.
Arguments Run : clear implicits.

(** The reserved event objects, by name. *)
Definition INIT_EV : QEvent := {| sig := Q_INIT_SIG |}.
Definition ENTRY_EV : QEvent := {| sig := Q_ENTRY_SIG |}.
Definition EXIT_EV : QEvent := {| sig := Q_EXIT_SIG |}.

Declare Scope run_scope.
Delimit Scope run_scope with run.
Notation "x <- c1 ;; c2" := (bind c1 (fun x => c2))
  (at level 61, c1 at next level, right associativity) : run_scope.
Notation "c1 ;; c2" := (bind c1 (fun _ => c2))
  (at level 61, right associativity) : run_scope.

(** ** fsm_cpp/main.cpp: the two-state machine [MyFSM] *)

Module MyFSM.

(** [&MyFSM::state_a] and [&MyFSM::state_b]. *)
Inductive Handler : Type := p_state_a | p_state_b.

(** [enum new_event] *)
Definition Q_TIMEOUT_SIG : QSignal := Q_INIT_SIG + 1.

(** The object's data is what it has written to [std::cout] so far. *)
Definition Obj : Type := Fsm Handler string.

Definition endl : string := String (ascii_of_nat 10) EmptyString.

Definition cout (line : string) (st : Obj) : Obj :=
  with_self (self st ++ line ++ endl)%string st.

Definition state_a : HandlerBody Handler string :=
  fun e st =>
    if sig e =? Q_ENTRY_SIG then Q_HANDLED (cout "Entering A" st)
    else if sig e =? Q_EXIT_SIG then Q_HANDLED (cout "Exiting A" st)
    else if sig e =? Q_TIMEOUT_SIG then
      Q_TRAN (Some p_state_b) (cout "Timeout A" st)
    else Q_HANDLED st.

Definition state_b : HandlerBody Handler string :=
  fun e st =>
    if sig e =? Q_ENTRY_SIG then Q_HANDLED (cout "Entering B" st)
    else if sig e =? Q_EXIT_SIG then Q_HANDLED (cout "Exiting B" st)
    else if sig e =? Q_TIMEOUT_SIG then
      Q_TRAN (Some p_state_a) (cout "Timeout B" st)
    else Q_HANDLED st.

Definition body (h : Handler) : HandlerBody Handler string :=
  match h with
  | p_state_a => state_a
  | p_state_b => state_b
  end.

(** [const QEvent MyFSM::my_event[]] *)
Definition my_event : list QEvent := [ {| sig := Q_TIMEOUT_SIG |} ].

Definition TIMEOUT_EV : QEvent := {| sig := Q_TIMEOUT_SIG |}.

(** [MyFSM fsm;] with nothing printed yet. *)
Definition fsm : Obj := QFsm_ctor EmptyString.

(** [main] with the loop bound as a parameter: [init] and then [n] rounds
    of [fsm.dispatch(MyFSM::my_event[0])]. *)
Definition main_loop (n : nat) : Run Handler string unit :=
  (init body (Some p_state_a) ;;
   match at_index my_event 0 with
   | Some e => dispatch_n body n e
   | None => undefined
   end)%run.

Definition main : option (unit * Obj * list (Call Handler)) :=
  main_loop 10 fsm.

(** The active handler once [init] and [n] rounds have run. *)
Definition active_after (n : nat) : option Handler :=
  match main_loop n fsm with
  | Some (_, st, _) => m_state st
  | None => None
  end.

(** The machine running with [state_a] active and nothing printed. *)
Definition in_a : Obj := {| m_state := Some p_state_a; self := EmptyString |}.

Definition other (h : Handler) : Handler :=
  match h with
  | p_state_a => p_state_b
  | p_state_b => p_state_a
  end.

(** The three invocations of one round of the loop when [h] is active. *)
Definition round (h : Handler) : list (Call Handler) :=
  [ {| who := h; what := caller_ev TIMEOUT_EV; ret := Q_EVENT_TRAN |};
    {| who := h; what := reserved_ev Q_EXIT_SIG; ret := Q_EVENT_HANDLED |};
    {| who := other h; what := reserved_ev Q_ENTRY_SIG;
       ret := Q_EVENT_HANDLED |} ].

End MyFSM.

(** ** A second client of the template

    [Detour] is not in the repository.  It is a derived class written with
    the same macros as [MyFSM], whose handlers also return through
    [Q_TRAN] while they process the reserved signals:

    - [on_a]: [INIT] and [GO] record [on_b], [AGAIN] records [on_a]
      itself, [EXIT] records [on_c];
    - [on_c]: [ENTRY] records [on_d];
    - [on_b]: [AGAIN] records [on_b] itself, everything else is handled;
    - [on_d] ignores everything.

    It has no data of its own. *)

Module Detour.

Inductive Handler : Type := p_a | p_b | p_c | p_d.

Definition GO_SIG : QSignal := Q_INIT_SIG + 1.
Definition AGAIN_SIG : QSignal := Q_INIT_SIG + 2.

Definition Obj : Type := Fsm Handler unit.

Definition on_a : HandlerBody Handler unit :=
  fun e st =>
    if sig e =? Q_INIT_SIG then Q_TRAN (Some p_b) st
    else if sig e =? Q_EXIT_SIG then Q_TRAN (Some p_c) st
    else if sig e =? GO_SIG then Q_TRAN (Some p_b) st
    else if sig e =? AGAIN_SIG then Q_TRAN (Some p_a) st
    else Q_HANDLED st.

Definition on_b : HandlerBody Handler unit :=
  fun e st =>
    if sig e =? AGAIN_SIG then Q_TRAN (Some p_b) st
    else Q_HANDLED st.

Definition on_c : HandlerBody Handler unit :=
  fun e st =>
    if sig e =? Q_ENTRY_SIG then Q_TRAN (Some p_d) st
    else Q_HANDLED st.

Definition on_d : HandlerBody Handler unit := fun _ st => Q_IGNORED st.

Definition body (h : Handler) : HandlerBody Handler unit :=
  match h with
  | p_a => on_a
  | p_b => on_b
  | p_c => on_c
  | p_d => on_d
  end.

Definition GO_EV : QEvent := {| sig := GO_SIG |}.
Definition AGAIN_EV : QEvent := {| sig := AGAIN_SIG |}.

(** The machine running with [on_a], [on_b], [on_d] active. *)
Definition in_a : Obj := {| m_state := Some p_a; self := tt |}.
Definition in_b : Obj := {| m_state := Some p_b; self := tt |}.
Definition in_d : Obj := {| m_state := Some p_d; self := tt |}.

End Detour.

(** A shorthand for one entry of the observed call sequence. *)
Definition called {Handler : Type} (h : Handler) (a : EvRef) (r : QState)
  : Call Handler :=
  {| who := h; what := a; ret := r |}.

(** How many invocations in a sequence hand over the reserved event [i]. *)
Definition count_reserved {Handler : Type} (i : QSignal)
  (log : list (Call Handler)) : nat :=
  Datatypes.length
    (filter
       (fun c =>
          match what c with
          | reserved_ev j => j =? i
          | caller_ev _ => false
          end)
       log).

(** The handlers that were handed an event given by the caller, in order. *)
Definition caller_receivers {Handler : Type} (log : list (Call Handler))
  : list Handler :=
  map who
    (filter
       (fun c =>
          match what c with
          | reserved_ev _ => false
          | caller_ev _ => true
          end)
       log).

(** The objects a transition goes through: the one the triggering call
    left, and the one the old handler's [EXIT] call left. *)
Definition triggered {Handler Data : Type}
  (body : Handler -> HandlerBody Handler Data)
  (h : Handler) (e : QEvent) (st : Fsm Handler Data) : Fsm Handler Data :=
  after body h e st.

Definition exited {Handler Data : Type}
  (body : Handler -> HandlerBody Handler Data)
  (h : Handler) (e : QEvent) (st : Fsm Handler Data) : Fsm Handler Data :=
  after body h EXIT_EV (triggered body h e st).

(** How many invocations in a sequence hand over an event of the caller
    and return [Q_EVENT_TRAN]. *)
Definition count_caller_tran {Handler : Type} (log : list (Call Handler))
  : nat :=
  Datatypes.length
    (filter
       (fun c =>
          match what c with
          | reserved_ev _ => false
          | caller_ev _ => ret c =? Q_EVENT_TRAN
          end)
       log).

(** A machine as its owner drives it: [init], then one [dispatch] per
    event. *)
Definition run_machine {Handler Data : Type}
  (body : Handler -> HandlerBody Handler Data)
  (init_state : option Handler) (es : list QEvent)
  : Run Handler Data unit :=
  (init body init_state ;; dispatch_all body es)%run.

(** ** A third client of the template

    [Halt] is not in the repository either.  Its one handler stores
    [nullptr] in the slot in two ways:

    - on [STOP]: [this->m_state = nullptr; return Q_HANDLED();]
    - on [KILL]: [return Q_TRAN(nullptr);]

    and handles everything else. *)

Module Halt.

Inductive Handler : Type := p_live.

Definition STOP_SIG : QSignal := Q_INIT_SIG + 1.
Definition KILL_SIG : QSignal := Q_INIT_SIG + 2.

Definition Obj : Type := Fsm Handler unit.

Definition on_live : HandlerBody Handler unit :=
  fun e st =>
    if sig e =? STOP_SIG then Q_HANDLED (assign_m_state None st)
    else if sig e =? KILL_SIG then Q_TRAN None st
    else Q_HANDLED st.

Definition body (h : Handler) : HandlerBody Handler unit :=
  match h with
  | p_live => on_live
  end.

Definition STOP_EV : QEvent := {| sig := STOP_SIG |}.
Definition KILL_EV : QEvent := {| sig := KILL_SIG |}.

Definition live : Obj := {| m_state := Some p_live; self := tt |}.

End Halt.

(** ** A fourth client of the template

    [Sneak] is not in the repository either.  Both its handlers return
    through [Q_IGNORED()] on every event, but [on_s] first assigns the
    slot when the event is [GO]:

    - [on_s] on [GO]: [this->m_state = &Sneak::on_t; return Q_IGNORED();]
    - [on_s] on anything else, and [on_t] always: [return Q_IGNORED();] *)

Module Sneak.

Inductive Handler : Type := p_s | p_t.

Definition GO_SIG : QSignal := Q_INIT_SIG + 1.

Definition Obj : Type := Fsm Handler unit.

Definition on_s : HandlerBody Handler unit :=
  fun e st =>
    if sig e =? GO_SIG then Q_IGNORED (assign_m_state (Some p_t) st)
    else Q_IGNORED st.

Definition on_t : HandlerBody Handler unit := fun _ st => Q_IGNORED st.

Definition body (h : Handler) : HandlerBody Handler unit :=
  match h with
  | p_s => on_s
  | p_t => on_t
  end.

Definition GO_EV : QEvent := {| sig := GO_SIG |}.

(** The machine running with [on_s], with [on_t] active. *)
Definition in_s : Obj := {| m_state := Some p_s; self := tt |}.
Definition in_t : Obj := {| m_state := Some p_t; self := tt |}.

End Sneak.

(** ** Reading the runs of [MyFSM] *)

Module MyFSMRun.

(** How many of the events carry [Q_TIMEOUT_SIG]. *)
Definition toggles (es : list QEvent) : nat :=
  Datatypes.length (filter (fun e => sig e =? MyFSM.Q_TIMEOUT_SIG) es).

(** The handler reached from [h] by [n] transitions. *)
Definition flip (n : nat) (h : MyFSM.Handler) : MyFSM.Handler :=
  if Nat.even n then h else MyFSM.other h.

(** [h], the other one, [h], ... : [n] handlers. *)
Fixpoint alternating (h : MyFSM.Handler) (n : nat) : list MyFSM.Handler :=
  match n with
  | O => []
  | S k => h :: alternating (MyFSM.other h) k
  end.

Definition name (h : MyFSM.Handler) : string :=
  match h with
  | MyFSM.p_state_a => "A"
  | MyFSM.p_state_b => "B"
  end.

(** The lines one round of the loop prints when [h] is active. *)
Definition round_lines (h : MyFSM.Handler) : list string :=
  [ ("Timeout " ++ name h)%string;
    ("Exiting " ++ name h)%string;
    ("Entering " ++ name (MyFSM.other h))%string ].

(** [std::cout] after these lines have been written behind [out], each
    with its newline. *)
Definition print_lines (ls : list string) (out : string) : string :=
  fold_left (fun acc l => (acc ++ l ++ MyFSM.endl)%string) ls out.

End MyFSMRun.

(** ** The dispatcher, step by step *)

Section DispatcherFacts.

Context {Handler Data : Type}.
Variable body : Handler -> HandlerBody Handler Data.

Let Obj : Type := Fsm Handler Data.

Lemma deref_init : deref (reserved_ev Q_INIT_SIG) = Some INIT_EV.
Proof. reflexivity. Qed.

Lemma deref_entry : deref (reserved_ev Q_ENTRY_SIG) = Some ENTRY_EV.
Proof. reflexivity. Qed.

Lemma deref_exit : deref (reserved_ev Q_EXIT_SIG) = Some EXIT_EV.
Proof. reflexivity. Qed.

Lemma invoke_some (h : Handler) (a : EvRef) (ev : QEvent) (st : Obj) :
  deref a = Some ev ->
  invoke body (Some h) a st =
  Some (fst (body h ev st), after body h ev st,
        [called h a (fst (body h ev st))]).
Proof. intros Ha. unfold invoke. rewrite Ha. reflexivity. Qed.

Lemma invoke_null (a : EvRef) (st : Obj) : invoke body None a st = None.
Proof. reflexivity. Qed.

(** [if (!m_state) return;] *)
Lemma dispatch_unset (e : QEvent) (st : Obj) :
  m_state st = None -> dispatch body e st = Some (tt, st, []).
Proof.
  intros Hnull. unfold dispatch, bind, get_m_state.
  rewrite Hnull. reflexivity.
Qed.

(** The handler returns something other than [Q_EVENT_TRAN]: one call. *)
Lemma dispatch_stay (e : QEvent) (st : Obj) (A : Handler) :
  m_state st = Some A ->
  fst (body A e st) <> Q_EVENT_TRAN ->
  dispatch body e st =
  Some (tt, after body A e st, [called A (caller_ev e) (fst (body A e st))]).
Proof.
  intros Hrun Hret. unfold dispatch, bind, get_m_state.
  rewrite Hrun. cbv beta iota zeta.
  rewrite (invoke_some A (caller_ev e) e st eq_refl).
  apply Z.eqb_neq in Hret. rewrite Hret. reflexivity.
Qed.

(** The handler returns [Q_EVENT_TRAN] and the slot holds [C] once the old
    handler has processed [EXIT]: three calls. *)
Lemma dispatch_tran (e : QEvent) (st : Obj) (A C : Handler) :
  m_state st = Some A ->
  fst (body A e st) = Q_EVENT_TRAN ->
  m_state (exited body A e st) = Some C ->
  dispatch body e st =
  Some (tt, after body C ENTRY_EV (exited body A e st),
        [ called A (caller_ev e) Q_EVENT_TRAN;
          called A (reserved_ev Q_EXIT_SIG)
            (fst (body A EXIT_EV (triggered body A e st)));
          called C (reserved_ev Q_ENTRY_SIG)
            (fst (body C ENTRY_EV (exited body A e st))) ]).
Proof.
  intros Hrun Hret Hslot. unfold dispatch, bind, get_m_state.
  rewrite Hrun. cbv beta iota zeta.
  rewrite (invoke_some A (caller_ev e) e st eq_refl).
  rewrite Hret. rewrite Z.eqb_refl.
  rewrite (invoke_some A _ EXIT_EV _ deref_exit).
  fold (triggered body A e st). fold (exited body A e st).
  rewrite Hslot.
  rewrite (invoke_some C _ ENTRY_EV _ deref_entry).
  reflexivity.
Qed.

(** The handler returns [Q_EVENT_TRAN] and the slot is null once the old
    handler has processed [EXIT]: the [ENTRY] call goes through a null
    member pointer. *)
Lemma dispatch_tran_null (e : QEvent) (st : Obj) (A : Handler) :
  m_state st = Some A ->
  fst (body A e st) = Q_EVENT_TRAN ->
  m_state (exited body A e st) = None ->
  dispatch body e st = None.
Proof.
  intros Hrun Hret Hslot. unfold dispatch, bind, get_m_state.
  rewrite Hrun. cbv beta iota zeta.
  rewrite (invoke_some A (caller_ev e) e st eq_refl).
  rewrite Hret. rewrite Z.eqb_refl.
  rewrite (invoke_some A _ EXIT_EV _ deref_exit).
  fold (triggered body A e st). fold (exited body A e st).
  rewrite Hslot. reflexivity.
Qed.

(** [init] with a handler: [INIT] to it, [ENTRY] to what the slot holds
    afterwards. *)
Lemma init_some (H0 C : Handler) (st : Obj) :
  m_state (after body H0 INIT_EV (assign_m_state (Some H0) st)) = Some C ->
  init body (Some H0) st =
  Some (tt,
        after body C ENTRY_EV
          (after body H0 INIT_EV (assign_m_state (Some H0) st)),
        [ called H0 (reserved_ev Q_INIT_SIG)
            (fst (body H0 INIT_EV (assign_m_state (Some H0) st)));
          called C (reserved_ev Q_ENTRY_SIG)
            (fst (body C ENTRY_EV
                    (after body H0 INIT_EV
                       (assign_m_state (Some H0) st)))) ]).
Proof.
  intros Hslot. unfold init, bind, get_m_state, set_m_state.
  cbv beta iota zeta.
  change (m_state (assign_m_state (Some H0) st)) with (Some H0).
  rewrite (invoke_some H0 _ INIT_EV _ deref_init).
  rewrite Hslot.
  rewrite (invoke_some C _ ENTRY_EV _ deref_entry).
  reflexivity.
Qed.

Lemma requests_at_ret (h B : Handler) (e : QEvent) (st : Obj) :
  requests_at body h e st B ->
  fst (body h e st) = Q_EVENT_TRAN /\ m_state (after body h e st) = Some B.
Proof.
  intros [d Hd]. unfold after. rewrite Hd. split; reflexivity.
Qed.


Lemma ignored_at_ret (h : Handler) (e : QEvent) (st : Obj) :
  ignored_at body h e st ->
  fst (body h e st) = Q_EVENT_IGNORED
  /\ m_state (after body h e st) = m_state st.
Proof.
  intros [d Hd]. unfold after. rewrite Hd. split; reflexivity.
Qed.

(** A requested transition whose [EXIT] and [ENTRY] processing leave the
    slot alone; the target may be the source itself. *)
Lemma dispatch_requested (e : QEvent) (st : Obj) (A B : Handler) :
  m_state st = Some A ->
  requests_at body A e st B ->
  keeps_slot body A EXIT_EV (triggered body A e st) ->
  keeps_slot body B ENTRY_EV (exited body A e st) ->
  exists st' r_exit r_entry,
    dispatch body e st =
    Some (tt, st',
          [ called A (caller_ev e) Q_EVENT_TRAN;
            called A (reserved_ev Q_EXIT_SIG) r_exit;
            called B (reserved_ev Q_ENTRY_SIG) r_entry ])
    /\ m_state st' = Some B.
Proof.
  intros Hrun Hreq Hexit Hentry.
  destruct (requests_at_ret A B e st Hreq) as [Hret Hslot].
  assert (Hslot2 : m_state (exited body A e st) = Some B).
  { unfold exited, after. unfold keeps_slot in Hexit.
    rewrite Hexit. exact Hslot. }
  eexists _, _, _. split.
  - apply (dispatch_tran e st A B Hrun Hret Hslot2).
  - unfold after. unfold keeps_slot in Hentry.
    rewrite Hentry. exact Hslot2.
Qed.

(** ** The claims about every machine *)

(** C1 (as amended).  A Running machine with active handler [A], an event
    on which [A] requests a transition to a different handler [B], and
    neither [A]'s [EXIT] processing nor [B]'s [ENTRY] processing writing
    the slot: this one [dispatch] makes exactly the calls [A] with the
    event, [A] with the synthetic [EXIT], [B] with the synthetic [ENTRY],
    in this order, and leaves [B] active. *)
Theorem dispatch_transition_sequence
  (e : QEvent) (st : Obj) (A B : Handler) :
  m_state st = Some A ->
  A <> B ->
  requests_at body A e st B ->
  keeps_slot body A EXIT_EV (triggered body A e st) ->
  keeps_slot body B ENTRY_EV (exited body A e st) ->
  exists st' r_exit r_entry,
    dispatch body e st =
    Some (tt, st',
          [ called A (caller_ev e) Q_EVENT_TRAN;
            called A (reserved_ev Q_EXIT_SIG) r_exit;
            called B (reserved_ev Q_ENTRY_SIG) r_entry ])
    /\ m_state st' = Some B.
Proof.
  intros Hrun _ Hreq Hexit Hentry.
  exact (dispatch_requested e st A B Hrun Hreq Hexit Hentry).
Qed.

(** C2 (as amended).  For every machine and handler [H0] whose [INIT] and
    [ENTRY] processing do not write the slot: [init(H0)] makes exactly two
    calls, [H0] with the synthetic [INIT] and then [H0] with the synthetic
    [ENTRY], and leaves the machine Running with [H0] active.  Nothing is
    assumed about what the two calls return: [init] goes on to [ENTRY]
    whatever [INIT] returned. *)
Theorem init_sequence (st : Obj) (H0 : Handler) :
  keeps_slot body H0 INIT_EV (assign_m_state (Some H0) st) ->
  keeps_slot body H0 ENTRY_EV
    (after body H0 INIT_EV (assign_m_state (Some H0) st)) ->
  exists st' r_init r_entry,
    init body (Some H0) st =
    Some (tt, st',
          [ called H0 (reserved_ev Q_INIT_SIG) r_init;
            called H0 (reserved_ev Q_ENTRY_SIG) r_entry ])
    /\ m_state st' = Some H0.
Proof.
  intros Hinit Hentry.
  assert (Hslot :
            m_state (after body H0 INIT_EV (assign_m_state (Some H0) st))
            = Some H0).
  { unfold after. unfold keeps_slot in Hinit. rewrite Hinit. reflexivity. }
  eexists _, _, _. split.
  - apply (init_some H0 H0 st Hslot).
  - unfold keeps_slot in Hentry. unfold after at 1.
    rewrite Hentry. exact Hslot.
Qed.

(** C3 (as amended).  A Running machine with active handler [A] and an
    event on which [A] requests a transition to [A] itself, where [A]'s
    [EXIT] and [ENTRY] processing do not write the slot: [dispatch] makes
    the calls [A] with the event, [A] with [EXIT], [A] with [ENTRY], and
    [A] is still active.  The dispatcher has no special case for it. *)
Theorem dispatch_self_transition (e : QEvent) (st : Obj) (A : Handler) :
  m_state st = Some A ->
  requests_at body A e st A ->
  keeps_slot body A EXIT_EV (triggered body A e st) ->
  keeps_slot body A ENTRY_EV (exited body A e st) ->
  exists st' r_exit r_entry,
    dispatch body e st =
    Some (tt, st',
          [ called A (caller_ev e) Q_EVENT_TRAN;
            called A (reserved_ev Q_EXIT_SIG) r_exit;
            called A (reserved_ev Q_ENTRY_SIG) r_entry ])
    /\ m_state st' = Some A.
Proof.
  intros Hrun Hreq Hexit Hentry.
  exact (dispatch_requested e st A A Hrun Hreq Hexit Hentry).
Qed.

(** One more [dispatch] in front of a sequence. *)
Lemma dispatch_all_cons (e : QEvent) (es : list QEvent) (st st1 : Obj)
  (l1 : list (Call Handler)) :
  dispatch body e st = Some (tt, st1, l1) ->
  dispatch_all body (e :: es) st =
  match dispatch_all body es st1 with
  | None => None
  | Some (b, st2, l2) => Some (b, st2, l1 ++ l2)
  end.
Proof.
  intros Hd. cbn [dispatch_all]. unfold bind. rewrite Hd. reflexivity.
Qed.


(** C8 (as amended).  A Running machine with active handler [A] and an
    event that [A], whenever it is active, reports as "ignored" while
    leaving the active-handler slot as it found it: dispatching this event
    [N] times, for any [N], makes exactly [N] calls, each to [A] with this
    event and each returning [Q_EVENT_IGNORED], and [A] is still active.
    The statement at [k <= N] gives the machine after the [k]-th of the
    [N] dispatches. *)
Theorem dispatch_n_ignored (e : QEvent) (A : Handler) :
  (forall st : Obj, m_state st = Some A -> ignored_at body A e st) ->
  forall (N : nat) (st : Obj),
    m_state st = Some A ->
    exists st',
      dispatch_n body N e st =
      Some (tt, st', repeat (called A (caller_ev e) Q_EVENT_IGNORED) N)
      /\ m_state st' = m_state st.
Proof.
  intros Hign N. unfold dispatch_n.
  induction N as [| N IH]; intros st Hrun.
  - exists st. split; reflexivity.
  - destruct (ignored_at_ret A e st (Hign st Hrun)) as [Hr Hs].
    assert (Hret : fst (body A e st) <> Q_EVENT_TRAN)
      by (rewrite Hr; discriminate).
    assert (Hslot : m_state (after body A e st) = Some A)
      by (rewrite Hs; exact Hrun).
    destruct (IH (after body A e st) Hslot) as (st' & Hall & Hact).
    exists st'. split.
    + cbn [repeat].
      rewrite (dispatch_all_cons e _ st _ _ (dispatch_stay e st A Hrun Hret)).
      rewrite Hall, Hr. reflexivity.
    + rewrite Hact. exact Hs.
Qed.

(** C9.  In a [dispatch] whose triggering call returned [Q_EVENT_TRAN], the
    synthetic [ENTRY] goes to the handler [C] that the slot holds once the
    old handler's [EXIT] call has returned, whichever handler the
    triggering call had recorded; the object the [ENTRY] call works on is
    the one the [EXIT] call left. *)
Theorem entry_goes_to_slot_after_exit
  (e : QEvent) (st : Obj) (A C : Handler) :
  m_state st = Some A ->
  fst (body A e st) = Q_EVENT_TRAN ->
  m_state (exited body A e st) = Some C ->
  exists r_exit r_entry,
    dispatch body e st =
    Some (tt, after body C ENTRY_EV (exited body A e st),
          [ called A (caller_ev e) Q_EVENT_TRAN;
            called A (reserved_ev Q_EXIT_SIG) r_exit;
            called C (reserved_ev Q_ENTRY_SIG) r_entry ]).
Proof.
  intros Hrun Hret Hslot. eexists _, _.
  apply (dispatch_tran e st A C Hrun Hret Hslot).
Qed.

(** C10 (as amended).  Every [dispatch] call that has defined behaviour
    makes at most three handler invocations, with at most one synthetic
    [EXIT] and at most one synthetic [ENTRY]: none on an unset machine;
    one, with the caller's event, when the handler does not return
    [Q_EVENT_TRAN]; otherwise three, the last being the [ENTRY] to the
    handler [C] found in the slot after the [EXIT] call, and the object
    left behind is the one this [ENTRY] call produced, whatever it wrote
    to the slot.  The only other outcome is the call through a null slot
    at the [ENTRY] step. *)
Theorem dispatch_at_most_three (e : QEvent) (st : Obj) :
  match dispatch body e st with
  | Some (_, st', log) =>
      (Datatypes.length log <= 3)%nat
      /\ (count_reserved Q_EXIT_SIG log <= 1)%nat
      /\ (count_reserved Q_ENTRY_SIG log <= 1)%nat
      /\ ((m_state st = None /\ log = [] /\ st' = st)
          \/ (exists A r,
                 m_state st = Some A
                 /\ r <> Q_EVENT_TRAN
                 /\ log = [ called A (caller_ev e) r ]
                 /\ st' = after body A e st)
          \/ (exists A C r_exit r_entry,
                 m_state st = Some A
                 /\ m_state (exited body A e st) = Some C
                 /\ log = [ called A (caller_ev e) Q_EVENT_TRAN;
                            called A (reserved_ev Q_EXIT_SIG) r_exit;
                            called C (reserved_ev Q_ENTRY_SIG) r_entry ]
                 /\ st' = after body C ENTRY_EV (exited body A e st)))
  | None =>
      exists A,
        m_state st = Some A
        /\ fst (body A e st) = Q_EVENT_TRAN
        /\ m_state (exited body A e st) = None
  end.
Proof.
  destruct (m_state st) as [A |] eqn:Hrun.
  - destruct (Z.eq_dec (fst (body A e st)) Q_EVENT_TRAN) as [Hret | Hret].
    + destruct (m_state (exited body A e st)) as [C |] eqn:Hslot.
      * rewrite (dispatch_tran e st A C Hrun Hret Hslot).
        repeat split; try (cbn; lia).
        right. right. eexists A, C, _, _. repeat split.
        exact Hslot.
      * rewrite (dispatch_tran_null e st A Hrun Hret Hslot).
        exists A. repeat split; assumption.
    + rewrite (dispatch_stay e st A Hrun Hret).
      repeat split; try (cbn; lia).
      right. left. eexists A, _. repeat split. exact Hret.
  - rewrite (dispatch_unset e st Hrun).
    repeat split; try (cbn; lia).
    left. repeat split.
Qed.

(** [init(nullptr)] calls through a null member pointer. *)
Lemma init_null (st : Obj) : init body None st = None.
Proof. reflexivity. Qed.

(** C4.  On a freshly constructed machine, whatever the derived object's
    data and the event, [dispatch] returns normally, has invoked no
    handler and has changed nothing; so does any sequence of [dispatch]
    calls made before [init]. *)
Theorem dispatch_before_init (d : Data) :
  (forall e : QEvent,
      dispatch body e (QFsm_ctor d) = Some (tt, QFsm_ctor d, []))
  /\ (forall es : list QEvent,
         dispatch_all body es (QFsm_ctor d) = Some (tt, QFsm_ctor d, [])).
Proof.
  assert (Hone : forall e : QEvent,
             dispatch body e (QFsm_ctor d) = Some (tt, QFsm_ctor d, []))
    by (intros e; apply dispatch_unset; reflexivity).
  split; [exact Hone |].
  induction es as [| e es IH]; [reflexivity |].
  rewrite (dispatch_all_cons e es _ _ _ (Hone e)).
  rewrite IH. reflexivity.
Qed.

End DispatcherFacts.

(** ** The reserved signals *)

(** C6.  The reserved signals are the constants 0, 1, 2, 3; the table of
    synthetic events, which is one closed table and no part of any
    machine's state, holds at each reserved index the event that carries
    this very signal, so that is what a handler of any machine is handed;
    the application signal of [MyFSM] is [Q_INIT_SIG + 1], and its events
    carry signals from [Q_INIT_SIG + 1] on. *)
Theorem reserved_signals_fixed :
  Q_EMPTY_SIG = 0 /\ Q_ENTRY_SIG = 1 /\ Q_EXIT_SIG = 2 /\ Q_INIT_SIG = 3
  /\ Forall (fun i => deref (reserved_ev i) = Some {| sig := i |})
       [Q_EMPTY_SIG; Q_ENTRY_SIG; Q_EXIT_SIG; Q_INIT_SIG]
  /\ (forall (Handler Data : Type) (body : Handler -> HandlerBody Handler Data)
        (h : Handler) (st : Fsm Handler Data),
         Forall
           (fun i =>
              invoke body (Some h) (reserved_ev i) st =
              Some (fst (body h {| sig := i |} st),
                    snd (body h {| sig := i |} st),
                    [ called h (reserved_ev i)
                        (fst (body h {| sig := i |} st)) ]))
           [Q_EMPTY_SIG; Q_ENTRY_SIG; Q_EXIT_SIG; Q_INIT_SIG])
  /\ MyFSM.Q_TIMEOUT_SIG = Q_INIT_SIG + 1
  /\ Forall (fun e => Q_INIT_SIG + 1 <= sig e) MyFSM.my_event.
Proof.
  repeat split.
  - repeat constructor.
  - intros Handler Data body h st. repeat constructor.
  - repeat constructor. cbn. lia.
Qed.

(** ** The run of [main] *)

(** C7 (as amended).  [main] runs to its end.  [init] delivers [INIT] and
    then [ENTRY] to [state_a]; each of the ten rounds delivers [TIMEOUT],
    then [EXIT] to the handler that was active, then [ENTRY] to the other
    one.  The handlers receiving the ten [TIMEOUT]s, that is the active
    state before each dispatch, are A,B,A,B,A,B,A,B,A,B; the active state
    after [init] and after each successive dispatch is A and then
    B,A,B,A,B,A,B,A,B,A, so [state_a] is active at the end.  The loop makes
    exactly 10 [EXIT] and 10 [ENTRY] calls. *)
Theorem main_alternates :
  exists st log,
    MyFSM.main =
    Some (tt, st,
          [ called MyFSM.p_state_a (reserved_ev Q_INIT_SIG) Q_EVENT_HANDLED;
            called MyFSM.p_state_a (reserved_ev Q_ENTRY_SIG) Q_EVENT_HANDLED ]
          ++ log)
    /\ log =
       flat_map MyFSM.round
         [ MyFSM.p_state_a; MyFSM.p_state_b; MyFSM.p_state_a; MyFSM.p_state_b;
           MyFSM.p_state_a; MyFSM.p_state_b; MyFSM.p_state_a; MyFSM.p_state_b;
           MyFSM.p_state_a; MyFSM.p_state_b ]
    /\ caller_receivers log =
       [ MyFSM.p_state_a; MyFSM.p_state_b; MyFSM.p_state_a; MyFSM.p_state_b;
         MyFSM.p_state_a; MyFSM.p_state_b; MyFSM.p_state_a; MyFSM.p_state_b;
         MyFSM.p_state_a; MyFSM.p_state_b ]
    /\ count_reserved Q_EXIT_SIG log = 10%nat
    /\ count_reserved Q_ENTRY_SIG log = 10%nat
    /\ map MyFSM.active_after (seq 0 11) =
       [ Some MyFSM.p_state_a;
         Some MyFSM.p_state_b; Some MyFSM.p_state_a;
         Some MyFSM.p_state_b; Some MyFSM.p_state_a;
         Some MyFSM.p_state_b; Some MyFSM.p_state_a;
         Some MyFSM.p_state_b; Some MyFSM.p_state_a;
         Some MyFSM.p_state_b; Some MyFSM.p_state_a ]
    /\ m_state st = Some MyFSM.p_state_a.
Proof.
  destruct MyFSM.main as [[[[] st] log] |] eqn:Hmain;
    [| vm_compute in Hmain; discriminate].
  exists st, (skipn 2 log).
  vm_compute in Hmain. injection Hmain as Hst Hlog. subst st log.
  repeat split; vm_compute; reflexivity.
Qed.

(** C7, the claim as written fails: the active states after the ten
    successive dispatches are not A,B,A,B,A,B,A,B,A,B, and it is not
    [state_b] that is active at the end. *)
Lemma main_does_not_end_in_b :
  map MyFSM.active_after (seq 1 10) <>
  [ Some MyFSM.p_state_a; Some MyFSM.p_state_b;
    Some MyFSM.p_state_a; Some MyFSM.p_state_b;
    Some MyFSM.p_state_a; Some MyFSM.p_state_b;
    Some MyFSM.p_state_a; Some MyFSM.p_state_b;
    Some MyFSM.p_state_a; Some MyFSM.p_state_b ]
  /\ MyFSM.active_after 10 <> Some MyFSM.p_state_b.
Proof. split; vm_compute; discriminate. Qed.

(** ** The theorems at concrete machines *)

(** C1 at [MyFSM]: [state_a] is active and [TIMEOUT] arrives. *)
Lemma dispatch_transition_sequence_MyFSM :
  exists st' r_exit r_entry,
    dispatch MyFSM.body MyFSM.TIMEOUT_EV MyFSM.in_a =
    Some (tt, st',
          [ called MyFSM.p_state_a (caller_ev MyFSM.TIMEOUT_EV) Q_EVENT_TRAN;
            called MyFSM.p_state_a (reserved_ev Q_EXIT_SIG) r_exit;
            called MyFSM.p_state_b (reserved_ev Q_ENTRY_SIG) r_entry ])
    /\ m_state st' = Some MyFSM.p_state_b.
Proof.
  apply (dispatch_transition_sequence MyFSM.body MyFSM.TIMEOUT_EV MyFSM.in_a
           MyFSM.p_state_a MyFSM.p_state_b).
  - reflexivity.
  - discriminate.
  - exists (self (MyFSM.cout "Timeout A" MyFSM.in_a)). reflexivity.
  - reflexivity.
  - reflexivity.
Defined.

(** C1, the claim as written fails at [Detour]: [on_a] is active and
    requests a transition to the different handler [on_b] on [GO], yet the
    calls are not the triggering event, [EXIT] to [on_a], [ENTRY] to
    [on_b] with [on_b] active afterwards. *)
Lemma transition_sequence_fails_at_Detour :
  m_state Detour.in_a = Some Detour.p_a
  /\ Detour.p_a <> Detour.p_b
  /\ requests_at Detour.body Detour.p_a Detour.GO_EV Detour.in_a Detour.p_b
  /\ ~ (exists st' r_exit r_entry,
          dispatch Detour.body Detour.GO_EV Detour.in_a =
          Some (tt, st',
                [ called Detour.p_a (caller_ev Detour.GO_EV) Q_EVENT_TRAN;
                  called Detour.p_a (reserved_ev Q_EXIT_SIG) r_exit;
                  called Detour.p_b (reserved_ev Q_ENTRY_SIG) r_entry ])
          /\ m_state st' = Some Detour.p_b).
Proof.
  split; [reflexivity |].
  split; [discriminate |].
  split; [exists tt; reflexivity |].
  intros (st' & r_exit & r_entry & Hrun & _).
  vm_compute in Hrun. discriminate.
Qed.

(** What [Detour] does there instead: the [ENTRY] goes to [on_c], and
    [on_d], recorded while [on_c] processed [ENTRY], is active afterwards
    without having been called. *)
Example dispatch_GO_at_Detour :
  dispatch Detour.body Detour.GO_EV Detour.in_a =
  Some (tt, Detour.in_d,
        [ called Detour.p_a (caller_ev Detour.GO_EV) Q_EVENT_TRAN;
          called Detour.p_a (reserved_ev Q_EXIT_SIG) Q_EVENT_TRAN;
          called Detour.p_c (reserved_ev Q_ENTRY_SIG) Q_EVENT_TRAN ]).
Proof. reflexivity. Qed.

(** C2 at [MyFSM]: [fsm.init(&MyFSM::state_a)]. *)
Lemma init_sequence_MyFSM :
  exists st' r_init r_entry,
    init MyFSM.body (Some MyFSM.p_state_a) MyFSM.fsm =
    Some (tt, st',
          [ called MyFSM.p_state_a (reserved_ev Q_INIT_SIG) r_init;
            called MyFSM.p_state_a (reserved_ev Q_ENTRY_SIG) r_entry ])
    /\ m_state st' = Some MyFSM.p_state_a.
Proof.
  apply (init_sequence MyFSM.body MyFSM.fsm MyFSM.p_state_a).
  - reflexivity.
  - reflexivity.
Defined.

(** C2, the claim as written fails at [Detour]: [init] with [on_a], whose
    [INIT] processing records [on_b], hands the [ENTRY] to [on_b] and
    leaves [on_b] active. *)
Lemma init_sequence_fails_at_Detour :
  init Detour.body (Some Detour.p_a) (QFsm_ctor tt) =
  Some (tt, Detour.in_b,
        [ called Detour.p_a (reserved_ev Q_INIT_SIG) Q_EVENT_TRAN;
          called Detour.p_b (reserved_ev Q_ENTRY_SIG) Q_EVENT_HANDLED ])
  /\ ~ (exists st' r_init r_entry,
          init Detour.body (Some Detour.p_a) (QFsm_ctor tt) =
          Some (tt, st',
                [ called Detour.p_a (reserved_ev Q_INIT_SIG) r_init;
                  called Detour.p_a (reserved_ev Q_ENTRY_SIG) r_entry ])
          /\ m_state st' = Some Detour.p_a).
Proof.
  split; [reflexivity |].
  intros (st' & r_init & r_entry & Hrun & _).
  vm_compute in Hrun. discriminate.
Qed.

(** C3 at [Detour]: [on_b] is active and [AGAIN] arrives. *)
Lemma dispatch_self_transition_Detour :
  exists st' r_exit r_entry,
    dispatch Detour.body Detour.AGAIN_EV Detour.in_b =
    Some (tt, st',
          [ called Detour.p_b (caller_ev Detour.AGAIN_EV) Q_EVENT_TRAN;
            called Detour.p_b (reserved_ev Q_EXIT_SIG) r_exit;
            called Detour.p_b (reserved_ev Q_ENTRY_SIG) r_entry ])
    /\ m_state st' = Some Detour.p_b.
Proof.
  apply (dispatch_self_transition Detour.body Detour.AGAIN_EV Detour.in_b
           Detour.p_b).
  - reflexivity.
  - exists tt. reflexivity.
  - reflexivity.
  - reflexivity.
Defined.

(** C3, the claim as written fails at [Detour]: [on_a] is active and
    requests a transition to itself on [AGAIN], yet the [ENTRY] does not go
    to [on_a] and [on_a] is not active afterwards. *)
Lemma self_transition_fails_at_Detour :
  m_state Detour.in_a = Some Detour.p_a
  /\ requests_at Detour.body Detour.p_a Detour.AGAIN_EV Detour.in_a
       Detour.p_a
  /\ dispatch Detour.body Detour.AGAIN_EV Detour.in_a =
     Some (tt, Detour.in_d,
           [ called Detour.p_a (caller_ev Detour.AGAIN_EV) Q_EVENT_TRAN;
             called Detour.p_a (reserved_ev Q_EXIT_SIG) Q_EVENT_TRAN;
             called Detour.p_c (reserved_ev Q_ENTRY_SIG) Q_EVENT_TRAN ])
  /\ ~ (exists st' r_exit r_entry,
          dispatch Detour.body Detour.AGAIN_EV Detour.in_a =
          Some (tt, st',
                [ called Detour.p_a (caller_ev Detour.AGAIN_EV) Q_EVENT_TRAN;
                  called Detour.p_a (reserved_ev Q_EXIT_SIG) r_exit;
                  called Detour.p_a (reserved_ev Q_ENTRY_SIG) r_entry ])
          /\ m_state st' = Some Detour.p_a).
Proof.
  split; [reflexivity |].
  split; [exists tt; reflexivity |].
  split; [reflexivity |].
  intros (st' & r_exit & r_entry & Hrun & _).
  vm_compute in Hrun. discriminate.
Qed.


(** C8 at [Detour]: [on_d] is active and [GO], which it ignores, is
    dispatched three times. *)
Lemma dispatch_n_ignored_Detour :
  exists st',
    dispatch_n Detour.body 3 Detour.GO_EV Detour.in_d =
    Some (tt, st',
          repeat (called Detour.p_d (caller_ev Detour.GO_EV) Q_EVENT_IGNORED)
            3)
    /\ m_state st' = m_state Detour.in_d.
Proof.
  apply (dispatch_n_ignored Detour.body Detour.GO_EV Detour.p_d).
  - intros [slot []] Hrun. exists tt. reflexivity.
  - reflexivity.
Defined.

(** C9 at [Detour]: the triggering [GO] records [on_b], the [EXIT]
    processing of [on_a] records [on_c], and the [ENTRY] goes to [on_c]. *)
Lemma entry_goes_to_slot_after_exit_Detour :
  m_state (triggered Detour.body Detour.p_a Detour.GO_EV Detour.in_a)
  = Some Detour.p_b
  /\ m_state (exited Detour.body Detour.p_a Detour.GO_EV Detour.in_a)
     = Some Detour.p_c
  /\ exists r_exit r_entry,
       dispatch Detour.body Detour.GO_EV Detour.in_a =
       Some (tt,
             after Detour.body Detour.p_c ENTRY_EV
               (exited Detour.body Detour.p_a Detour.GO_EV Detour.in_a),
             [ called Detour.p_a (caller_ev Detour.GO_EV) Q_EVENT_TRAN;
               called Detour.p_a (reserved_ev Q_EXIT_SIG) r_exit;
               called Detour.p_c (reserved_ev Q_ENTRY_SIG) r_entry ]).
Proof.
  split; [reflexivity |].
  split; [reflexivity |].
  apply (entry_goes_to_slot_after_exit Detour.body Detour.GO_EV Detour.in_a
           Detour.p_a Detour.p_c).
  - reflexivity.
  - reflexivity.
  - reflexivity.
Defined.

(** C10, the claim as written fails at [Detour]: [on_c] is recorded while
    [on_a] processes [EXIT], and it is not true that [on_c] receives no
    [ENTRY] in that same [dispatch] call. *)
Lemma exit_recorded_handler_gets_entry :
  requests_at Detour.body Detour.p_a EXIT_EV
    (triggered Detour.body Detour.p_a Detour.GO_EV Detour.in_a) Detour.p_c
  /\ ~ (forall st' log,
          dispatch Detour.body Detour.GO_EV Detour.in_a = Some (tt, st', log) ->
          forall c,
            In c log -> what c = reserved_ev Q_ENTRY_SIG ->
            who c <> Detour.p_c).
Proof.
  split; [exists tt; reflexivity |].
  intros Hnever.
  apply (Hnever _ _ dispatch_GO_at_Detour
           (called Detour.p_c (reserved_ev Q_ENTRY_SIG) Q_EVENT_TRAN)).
  - cbn. right. right. left. reflexivity.
  - reflexivity.
  - reflexivity.
Qed.

(** ** More on every machine *)

Section DispatcherInvariants.

Context {Handler Data : Type}.
Variable body : Handler -> HandlerBody Handler Data.

Let Obj : Type := Fsm Handler Data.

(** The possible outcomes of one defined [dispatch]. *)
Lemma dispatch_shape (e : QEvent) (st st1 : Obj) (l1 : list (Call Handler)) :
  dispatch body e st = Some (tt, st1, l1) ->
  (m_state st = None /\ l1 = [] /\ st1 = st)
  \/ (exists A,
         m_state st = Some A
         /\ fst (body A e st) <> Q_EVENT_TRAN
         /\ l1 = [ called A (caller_ev e) (fst (body A e st)) ]
         /\ st1 = after body A e st)
  \/ (exists A C r_exit r_entry,
         m_state st = Some A
         /\ m_state (exited body A e st) = Some C
         /\ l1 = [ called A (caller_ev e) Q_EVENT_TRAN;
                   called A (reserved_ev Q_EXIT_SIG) r_exit;
                   called C (reserved_ev Q_ENTRY_SIG) r_entry ]
         /\ st1 = after body C ENTRY_EV (exited body A e st)).
Proof.
  intros Hd.
  destruct (m_state st) as [A |] eqn:Hrun.
  - destruct (Z.eq_dec (fst (body A e st)) Q_EVENT_TRAN) as [Hret | Hret].
    + destruct (m_state (exited body A e st)) as [C |] eqn:Hslot.
      * rewrite (dispatch_tran body e st A C Hrun Hret Hslot) in Hd.
        injection Hd as Hst Hl. subst st1 l1.
        right. right. exists A, C. eexists _, _. repeat split.
        exact Hslot.
      * rewrite (dispatch_tran_null body e st A Hrun Hret Hslot) in Hd.
        discriminate.
    + rewrite (dispatch_stay body e st A Hrun Hret) in Hd.
      injection Hd as Hst Hl. subst st1 l1.
      right. left. exists A. repeat split. exact Hret.
  - rewrite (dispatch_unset body e st Hrun) in Hd.
    injection Hd as Hst Hl. subst st1 l1. left. repeat split.
Qed.

(** A defined run over [e :: es] is a defined [dispatch] of [e] followed by
    a defined run over [es]. *)
Lemma dispatch_all_cons_inv (e : QEvent) (es : list QEvent) (st st' : Obj)
  (log : list (Call Handler)) :
  dispatch_all body (e :: es) st = Some (tt, st', log) ->
  exists st1 l1 l2,
    dispatch body e st = Some (tt, st1, l1)
    /\ dispatch_all body es st1 = Some (tt, st', l2)
    /\ log = l1 ++ l2.
Proof.
  cbn [dispatch_all]. unfold bind.
  destruct (dispatch body e st) as [[[[] st1] l1] |] eqn:Hd; [| discriminate].
  destruct (dispatch_all body es st1) as [[[[] st2] l2] |] eqn:Hrest;
    [| discriminate].
  intros Heq. injection Heq as Hst Hlog. subst st' log.
  exists st1, l1, l2. repeat split. exact Hrest.
Qed.

(** Once the slot is null, every later [dispatch] returns at its first
    line. *)
Lemma dispatch_all_unset (es : list QEvent) (st : Obj) :
  m_state st = None -> dispatch_all body es st = Some (tt, st, []).
Proof.
  intros Hnull. induction es as [| e es IH]; [reflexivity |].
  rewrite (dispatch_all_cons body e es st st [] (dispatch_unset body e st Hnull)).
  rewrite IH. reflexivity.
Qed.

Lemma count_reserved_app (i : QSignal) (l1 l2 : list (Call Handler)) :
  count_reserved i (l1 ++ l2) = (count_reserved i l1 + count_reserved i l2)%nat.
Proof. unfold count_reserved. rewrite filter_app. apply length_app. Qed.

Lemma count_caller_tran_app (l1 l2 : list (Call Handler)) :
  count_caller_tran (l1 ++ l2)
  = (count_caller_tran l1 + count_caller_tran l2)%nat.
Proof. unfold count_caller_tran. rewrite filter_app. apply length_app. Qed.

Lemma caller_receivers_app (l1 l2 : list (Call Handler)) :
  caller_receivers (l1 ++ l2) = caller_receivers l1 ++ caller_receivers l2.
Proof. unfold caller_receivers. rewrite filter_app. apply map_app. Qed.

(** X1.  [init] with a handler [H0], on any
    object: the [INIT] call goes to [H0] and the [ENTRY] call goes to the
    handler the slot holds when the [INIT] call has returned; these are the
    only calls, and the object left is the one the [ENTRY] call produced.
    The run is undefined exactly when the [INIT] call left the slot
    null. *)
Theorem init_entry_goes_to_slot_after_init (H0 : Handler) (st : Obj) :
  match init body (Some H0) st with
  | Some (_, st', log) =>
      exists C r_init r_entry,
        m_state (after body H0 INIT_EV (assign_m_state (Some H0) st)) = Some C
        /\ log = [ called H0 (reserved_ev Q_INIT_SIG) r_init;
                   called C (reserved_ev Q_ENTRY_SIG) r_entry ]
        /\ st' = after body C ENTRY_EV
                   (after body H0 INIT_EV (assign_m_state (Some H0) st))
  | None =>
      m_state (after body H0 INIT_EV (assign_m_state (Some H0) st)) = None
  end.
Proof.
  destruct (m_state (after body H0 INIT_EV (assign_m_state (Some H0) st)))
    as [C |] eqn:Hslot.
  - rewrite (init_some body H0 C st Hslot).
    exists C. eexists _, _. repeat split.
  - unfold init, bind, get_m_state, set_m_state. cbv beta iota zeta.
    change (m_state (assign_m_state (Some H0) st)) with (Some H0).
    rewrite (invoke_some body H0 _ INIT_EV _ (deref_init)).
    rewrite Hslot. reflexivity.
Qed.

(** [init] does not read the slot it overwrites: on a machine that is
    already Running with any handler [q] it does what it does on the same
    object with the slot unset; in particular the handler that was active
    is handed no [EXIT]. *)
Lemma init_forgets_active_handler
  (p q : option Handler) (st : Obj) :
  init body p (assign_m_state q st) = init body p (QFsm_ctor (self st)).
Proof. reflexivity. Qed.

(** Counting the calls of a defined run of [dispatch] calls. *)
Lemma dispatch_all_counts
  (es : list QEvent) (st st' : Obj) (log : list (Call Handler)) :
  dispatch_all body es st = Some (tt, st', log) ->
  count_reserved Q_EXIT_SIG log = count_caller_tran log
  /\ count_reserved Q_ENTRY_SIG log = count_caller_tran log
  /\ count_reserved Q_INIT_SIG log = 0%nat
  /\ count_reserved Q_EMPTY_SIG log = 0%nat
  /\ (Datatypes.length (caller_receivers log) <= Datatypes.length es)%nat
  /\ Datatypes.length log
     = (Datatypes.length (caller_receivers log)
        + 2 * count_caller_tran log)%nat.
Proof.
  revert st log. induction es as [| e es IH]; intros st log Hall.
  - cbn in Hall. injection Hall as _ Hlog. subst log.
    repeat split; cbn; lia.
  - destruct (dispatch_all_cons_inv e es st st' log Hall)
      as (st1 & l1 & l2 & Hd & Hrest & Hlog).
    destruct (IH st1 l2 Hrest) as (Hx & Hn & Hi & Hm & Hc & Hlen).
    subst log.
    rewrite !count_reserved_app, count_caller_tran_app,
      caller_receivers_app, !length_app.
    rewrite Hx, Hn, Hi, Hm, Hlen.
    destruct (dispatch_shape e st st1 l1 Hd)
      as [(_ & Hl & _) | [(A & _ & Hret & Hl & _)
                         | (A & C & r1 & r2 & _ & _ & Hl & _)]];
      subst l1.
    + repeat split; cbn; lia.
    + assert (Hcount :
                count_caller_tran
                  [called A (caller_ev e) (fst (body A e st))] = 0%nat).
      { unfold count_caller_tran. cbn [filter what ret called].
        apply Z.eqb_neq in Hret. rewrite Hret. reflexivity. }
      rewrite Hcount. repeat split; cbn; lia.
    + repeat split; cbn; lia.
Qed.

(** X2.  In every defined run of [dispatch] calls, whatever the handlers
    do: the synthetic [EXIT]s and the synthetic [ENTRY]s are each as many
    as the calls with a caller's event that returned [Q_EVENT_TRAN]; no
    synthetic [INIT] or [EMPTY] event is delivered; at most one call per
    dispatched event carries the caller's event; and there are no other
    calls. *)
Theorem dispatch_all_exit_entry_paired
  (es : list QEvent) (st st' : Obj) (log : list (Call Handler)) :
  dispatch_all body es st = Some (tt, st', log) ->
  count_reserved Q_EXIT_SIG log = count_caller_tran log
  /\ count_reserved Q_ENTRY_SIG log = count_caller_tran log
  /\ count_reserved Q_INIT_SIG log = 0%nat
  /\ count_reserved Q_EMPTY_SIG log = 0%nat
  /\ (Datatypes.length (caller_receivers log) <= Datatypes.length es)%nat
  /\ Datatypes.length log
     = (Datatypes.length (caller_receivers log)
        + 2 * count_caller_tran log)%nat.
Proof. exact (dispatch_all_counts es st st' log). Qed.

(** A defined [init] made its two calls. *)
Lemma init_inv (H0 : Handler) (st st1 : Obj) (l1 : list (Call Handler)) :
  init body (Some H0) st = Some (tt, st1, l1) ->
  exists C r_init r_entry,
    l1 = [ called H0 (reserved_ev Q_INIT_SIG) r_init;
           called C (reserved_ev Q_ENTRY_SIG) r_entry ].
Proof.
  intros Hinit.
  destruct (m_state (after body H0 INIT_EV (assign_m_state (Some H0) st)))
    as [C |] eqn:Hslot.
  - rewrite (init_some body H0 C st Hslot) in Hinit.
    injection Hinit as _ Hl. subst l1. exists C. eexists _, _. reflexivity.
  - unfold init, bind, get_m_state, set_m_state in Hinit.
    cbv beta iota zeta in Hinit.
    change (m_state (assign_m_state (Some H0) st)) with (Some H0) in Hinit.
    rewrite (invoke_some body H0 _ INIT_EV _ (deref_init)) in Hinit.
    rewrite Hslot in Hinit. discriminate.
Qed.

(** X9.  Over the life of a machine, [init] with a handler [H0] followed
    by any sequence of events, in every defined run and whatever the
    handlers do: the first call is the synthetic [INIT] to [H0] and it is
    the only [INIT]; the synthetic [ENTRY]s are one more than the synthetic
    [EXIT]s; and no [EMPTY] event is ever delivered. *)
Theorem run_machine_entry_exit_balance
  (H0 : Handler) (es : list QEvent) (st st' : Obj)
  (log : list (Call Handler)) :
  run_machine body (Some H0) es st = Some (tt, st', log) ->
  (exists r rest, log = called H0 (reserved_ev Q_INIT_SIG) r :: rest)
  /\ count_reserved Q_INIT_SIG log = 1%nat
  /\ count_reserved Q_ENTRY_SIG log = S (count_reserved Q_EXIT_SIG log)
  /\ count_reserved Q_EMPTY_SIG log = 0%nat.
Proof.
  unfold run_machine, bind.
  destruct (init body (Some H0) st) as [[[[] st1] l1] |] eqn:Hinit;
    [| discriminate].
  destruct (dispatch_all body es st1) as [[[[] st2] l2] |] eqn:Hall;
    [| discriminate].
  intros Heq. injection Heq as _ Hlog. subst log.
  destruct (init_inv H0 st st1 l1 Hinit) as (C & r1 & r2 & Hl1). subst l1.
  destruct (dispatch_all_counts es st1 st2 l2 Hall)
    as (Hx & Hn & Hi & Hm & _ & _).
  rewrite !count_reserved_app, Hx, Hn, Hi, Hm.
  split; [eexists _, _; reflexivity |].
  repeat split; cbn; lia.
Qed.

(** X3.  A machine whose handlers never leave the slot null once it holds
    a handler has no undefined run: [init] with any handler followed by
    any sequence of events is defined, every event is delivered, and the
    machine is Running at the end. *)
Theorem never_null_never_undefined :
  (forall (h : Handler) (ev : QEvent) (st : Obj),
      m_state st <> None -> m_state (after body h ev st) <> None) ->
  forall (H0 : Handler) (es : list QEvent) (st : Obj),
  exists st' log,
    run_machine body (Some H0) es st = Some (tt, st', log)
    /\ m_state st' <> None
    /\ Datatypes.length (caller_receivers log)
       = Datatypes.length es.
Proof.
  intros Hnn H0 es st.
  assert (Hloop : forall (es : list QEvent) (st : Obj),
             m_state st <> None ->
             exists st' log,
               dispatch_all body es st = Some (tt, st', log)
               /\ m_state st' <> None
               /\ Datatypes.length (caller_receivers log)
                  = Datatypes.length es).
  { clear es st. induction es as [| e es IH]; intros st Hrun.
    - exists st, []. repeat split. exact Hrun.
    - destruct (m_state st) as [A |] eqn:HA; [| congruence].
      assert (Hst : m_state st <> None) by congruence.
      destruct (Z.eq_dec (fst (body A e st)) Q_EVENT_TRAN) as [Hret | Hret].
      + pose proof (Hnn A EXIT_EV _ (Hnn A e st Hst)) as Hex.
        fold (triggered body A e st) in Hex.
        fold (exited body A e st) in Hex.
        destruct (m_state (exited body A e st)) as [C |] eqn:HC;
          [| congruence].
        assert (Hex' : m_state (exited body A e st) <> None) by congruence.
        destruct (IH _ (Hnn C ENTRY_EV _ Hex')) as (st' & l2 & Hall & Hr & Hn).
        eexists st', _. split; [| split; [exact Hr |]].
        * rewrite (dispatch_all_cons body e es st _ _
                     (dispatch_tran body e st A C HA Hret HC)).
          rewrite Hall. reflexivity.
        * rewrite caller_receivers_app, length_app, Hn. reflexivity.
      + destruct (IH _ (Hnn A e st Hst)) as (st' & l2 & Hall & Hr & Hn).
        eexists st', _. split; [| split; [exact Hr |]].
        * rewrite (dispatch_all_cons body e es st _ _
                     (dispatch_stay body e st A HA Hret)).
          rewrite Hall. reflexivity.
        * rewrite caller_receivers_app, length_app, Hn. reflexivity. }
  assert (H1 : m_state (assign_m_state (Some H0) st) <> None)
    by (cbn; discriminate).
  pose proof (Hnn H0 INIT_EV _ H1) as H2.
  destruct (m_state (after body H0 INIT_EV (assign_m_state (Some H0) st)))
    as [C |] eqn:HC; [| congruence].
  assert (H2' : m_state (after body H0 INIT_EV (assign_m_state (Some H0) st))
                <> None) by congruence.
  destruct (Hloop es _ (Hnn C ENTRY_EV _ H2')) as (st' & l2 & Hall & Hr & Hn).
  eexists st', _. split; [| split; [exact Hr |]].
  - unfold run_machine, bind.
    rewrite (init_some body H0 C st HC). rewrite Hall. reflexivity.
  - rewrite caller_receivers_app, length_app, Hn. reflexivity.
Qed.

(** X4.  The guard at the top of [dispatch] does not cover the [ENTRY]
    step: when the active handler returns through [Q_TRAN(nullptr)] and its
    [EXIT] processing leaves the slot as it is, the [ENTRY] call goes
    through a null member pointer and the run is undefined. *)
Theorem tran_to_null_is_undefined (e : QEvent) (st : Obj) (A : Handler) :
  m_state st = Some A ->
  (exists d, body A e st = Q_TRAN None (with_self d st)) ->
  keeps_slot body A EXIT_EV (triggered body A e st) ->
  dispatch body e st = None.
Proof.
  intros Hrun [d Hd] Hkeep.
  apply (dispatch_tran_null body e st A Hrun).
  - rewrite Hd. reflexivity.
  - unfold exited, after. unfold keeps_slot in Hkeep. rewrite Hkeep.
    unfold triggered, after. rewrite Hd. reflexivity.
Qed.

(** X5.  A handler that stores null in the slot and returns anything but
    [Q_EVENT_TRAN] stops the machine silently: that [dispatch] makes the
    one call, with no [EXIT], and every later [dispatch] is a no-op that
    calls nothing and changes nothing. *)
Theorem null_without_tran_stops_machine
  (e : QEvent) (es : list QEvent) (st : Obj) (A : Handler) :
  m_state st = Some A ->
  fst (body A e st) <> Q_EVENT_TRAN ->
  m_state (after body A e st) = None ->
  dispatch_all body (e :: es) st =
  Some (tt, after body A e st,
        [ called A (caller_ev e) (fst (body A e st)) ]).
Proof.
  intros Hrun Hret Hnull.
  rewrite (dispatch_all_cons body e es st _ _
             (dispatch_stay body e st A Hrun Hret)).
  rewrite (dispatch_all_unset es _ Hnull). reflexivity.
Qed.

End DispatcherInvariants.

(** ** The reserved table, at every index *)

(** X6.  Reading the reserved table at [i] is defined exactly for
    [0 <= i <= Q_INIT_SIG], and there it yields the event whose signal is
    [i] itself: the order of the table is the order of the enum. *)
Theorem reserved_table_bounds (i : QSignal) :
  deref (reserved_ev i) =
  if (0 <=? i) && (i <=? Q_INIT_SIG) then Some {| sig := i |} else None.
Proof.
  unfold deref, at_index.
  destruct (i <? 0) eqn:Hneg.
  - apply Z.ltb_lt in Hneg.
    assert (H0 : (0 <=? i) = false) by (apply Z.leb_gt; lia).
    rewrite H0. reflexivity.
  - apply Z.ltb_ge in Hneg.
    assert (H0 : (0 <=? i) = true) by (apply Z.leb_le; lia).
    rewrite H0. cbn [andb].
    destruct (i <=? Q_INIT_SIG) eqn:Hup.
    + apply Z.leb_le in Hup. change Q_INIT_SIG with 3 in Hup.
      assert (Hi : i = 0 \/ i = 1 \/ i = 2 \/ i = 3) by lia.
      destruct Hi as [-> | [-> | [-> | ->]]]; reflexivity.
    + apply Z.leb_gt in Hup. change Q_INIT_SIG with 3 in Hup.
      apply nth_error_None. cbn [Datatypes.length m_reserved_ev]. lia.
Qed.

(** ** [MyFSM] on every input *)

Lemma flip_succ (n : nat) (h : MyFSM.Handler) :
  MyFSMRun.flip (S n) h = MyFSMRun.flip n (MyFSM.other h).
Proof.
  unfold MyFSMRun.flip. rewrite Nat.even_succ, <- Nat.negb_even.
  destruct (Nat.even n), h; reflexivity.
Qed.

Lemma print_lines_app (ls1 ls2 : list string) (out : string) :
  MyFSMRun.print_lines (ls1 ++ ls2) out
  = MyFSMRun.print_lines ls2 (MyFSMRun.print_lines ls1 out).
Proof. unfold MyFSMRun.print_lines. apply fold_left_app. Qed.

(** One round on [TIMEOUT], whatever has been printed so far. *)
Lemma MyFSM_timeout (h : MyFSM.Handler) (out : string) (e : QEvent) :
  sig e = MyFSM.Q_TIMEOUT_SIG ->
  dispatch MyFSM.body e {| m_state := Some h; self := out |} =
  Some (tt,
        {| m_state := Some (MyFSM.other h);
           self := MyFSMRun.print_lines (MyFSMRun.round_lines h) out |},
        [ called h (caller_ev e) Q_EVENT_TRAN;
          called h (reserved_ev Q_EXIT_SIG) Q_EVENT_HANDLED;
          called (MyFSM.other h) (reserved_ev Q_ENTRY_SIG) Q_EVENT_HANDLED ]).
Proof.
  destruct e as [s]. cbn [sig]. intros ->. destruct h; reflexivity.
Qed.

(** Any other event: one call, handled, the handler stays. *)
Lemma MyFSM_other_event (h : MyFSM.Handler) (out : string) (e : QEvent) :
  sig e <> MyFSM.Q_TIMEOUT_SIG ->
  exists out',
    dispatch MyFSM.body e {| m_state := Some h; self := out |} =
    Some (tt, {| m_state := Some h; self := out' |},
          [ called h (caller_ev e) Q_EVENT_HANDLED ]).
Proof.
  intros Hsig. apply Z.eqb_neq in Hsig.
  destruct h;
    unfold dispatch, bind, get_m_state, invoke;
    cbn [m_state deref MyFSM.body fst snd];
    [unfold MyFSM.state_a | unfold MyFSM.state_b];
    rewrite Hsig;
    destruct (sig e =? Q_ENTRY_SIG); [| destruct (sig e =? Q_EXIT_SIG) | |
                                      destruct (sig e =? Q_EXIT_SIG)];
    eexists; reflexivity.
Qed.

(** X7.  [MyFSM] with either handler active, on any sequence of events
    whatever signals they carry, reserved values included: the run is
    defined, every event is delivered, the active handler at the end is
    the starting one if the number of [TIMEOUT] events is even and the
    other one if it is odd, and there are as many synthetic [EXIT]s and
    [ENTRY]s as [TIMEOUT] events. *)
Theorem MyFSM_active_by_parity
  (es : list QEvent) (h : MyFSM.Handler) (out : string) :
  exists st' log,
    dispatch_all MyFSM.body es {| m_state := Some h; self := out |} =
    Some (tt, st', log)
    /\ m_state st' = Some (MyFSMRun.flip (MyFSMRun.toggles es) h)
    /\ Datatypes.length (caller_receivers log) = Datatypes.length es
    /\ count_reserved Q_EXIT_SIG log = MyFSMRun.toggles es
    /\ count_reserved Q_ENTRY_SIG log = MyFSMRun.toggles es.
Proof.
  revert h out. induction es as [| e es IH]; intros h out.
  - eexists _, _. repeat split.
  - destruct (Z.eq_dec (sig e) MyFSM.Q_TIMEOUT_SIG) as [Hsig | Hsig].
    + destruct (IH (MyFSM.other h)
                  (MyFSMRun.print_lines (MyFSMRun.round_lines h) out))
        as (st' & l2 & Hall & Hact & Hlen & Hx & Hn).
      assert (Htog : MyFSMRun.toggles (e :: es) = S (MyFSMRun.toggles es)).
      { unfold MyFSMRun.toggles. cbn [filter].
        apply Z.eqb_eq in Hsig. rewrite Hsig. reflexivity. }
      eexists st', _. split.
      * rewrite (dispatch_all_cons MyFSM.body e es _ _ _
                   (MyFSM_timeout h out e Hsig)).
        rewrite Hall. reflexivity.
      * rewrite Htog, flip_succ, caller_receivers_app, !count_reserved_app,
          length_app, Hlen, Hx, Hn.
        repeat split; trivial.
    + destruct (MyFSM_other_event h out e Hsig) as (out' & Hd).
      destruct (IH h out') as (st' & l2 & Hall & Hact & Hlen & Hx & Hn).
      assert (Htog : MyFSMRun.toggles (e :: es) = MyFSMRun.toggles es).
      { unfold MyFSMRun.toggles. cbn [filter].
        apply Z.eqb_neq in Hsig. rewrite Hsig. reflexivity. }
      eexists st', _. split.
      * rewrite (dispatch_all_cons MyFSM.body e es _ _ _ Hd).
        rewrite Hall. reflexivity.
      * rewrite Htog, caller_receivers_app, !count_reserved_app,
          length_app, Hlen, Hx, Hn.
        repeat split; trivial.
Qed.

(** [n] rounds of [TIMEOUT] from either handler. *)
Lemma MyFSM_rounds (n : nat) (h : MyFSM.Handler) (out : string) :
  dispatch_n MyFSM.body n MyFSM.TIMEOUT_EV {| m_state := Some h; self := out |}
  = Some (tt,
          {| m_state := Some (MyFSMRun.flip n h);
             self :=
               MyFSMRun.print_lines
                 (flat_map MyFSMRun.round_lines (MyFSMRun.alternating h n))
                 out |},
          flat_map MyFSM.round (MyFSMRun.alternating h n)).
Proof.
  unfold dispatch_n. revert h out.
  induction n as [| n IH]; intros h out; [reflexivity |].
  cbn [repeat MyFSMRun.alternating flat_map].
  rewrite (dispatch_all_cons MyFSM.body _ _ _ _ _
             (MyFSM_timeout h out MyFSM.TIMEOUT_EV eq_refl)).
  rewrite IH. rewrite flip_succ, print_lines_app.
  reflexivity.
Qed.

(** X8.  [main] with any loop bound [n]: the run is defined; the calls are
    [INIT] and [ENTRY] to [state_a] and then, per round, [TIMEOUT] and
    [EXIT] to the active handler and [ENTRY] to the other one, the active
    handlers alternating from [state_a]; [state_a] is active at the end if
    [n] is even and [state_b] if it is odd; and [std::cout] holds
    "Entering A" followed by the three lines of each round. *)
Theorem main_loop_closed_form (n : nat) :
  MyFSM.main_loop n MyFSM.fsm =
  Some (tt,
        {| m_state := Some (MyFSMRun.flip n MyFSM.p_state_a);
           self :=
             MyFSMRun.print_lines
               ("Entering A"%string
                :: flat_map MyFSMRun.round_lines
                     (MyFSMRun.alternating MyFSM.p_state_a n))
               EmptyString |},
        [ called MyFSM.p_state_a (reserved_ev Q_INIT_SIG) Q_EVENT_HANDLED;
          called MyFSM.p_state_a (reserved_ev Q_ENTRY_SIG) Q_EVENT_HANDLED ]
        ++ flat_map MyFSM.round (MyFSMRun.alternating MyFSM.p_state_a n)).
Proof.
  unfold MyFSM.main_loop, bind.
  change (init MyFSM.body (Some MyFSM.p_state_a) MyFSM.fsm)
    with (Some (tt,
                {| m_state := Some MyFSM.p_state_a;
                   self := MyFSMRun.print_lines ["Entering A"%string]
                             EmptyString |},
                [ called MyFSM.p_state_a (reserved_ev Q_INIT_SIG)
                    Q_EVENT_HANDLED;
                  called MyFSM.p_state_a (reserved_ev Q_ENTRY_SIG)
                    Q_EVENT_HANDLED ])).
  change (at_index MyFSM.my_event 0) with (Some MyFSM.TIMEOUT_EV).
  cbv beta iota.
  rewrite MyFSM_rounds. reflexivity.
Qed.

(** ** The further properties at concrete machines *)

(** X2 at [MyFSM]: two [TIMEOUT]s with an unknown signal in between. *)
Lemma dispatch_all_exit_entry_paired_MyFSM :
  let log :=
    MyFSM.round MyFSM.p_state_a
    ++ [ called MyFSM.p_state_b (caller_ev {| sig := 7 |}) Q_EVENT_HANDLED ]
    ++ MyFSM.round MyFSM.p_state_b in
  count_reserved Q_EXIT_SIG log = count_caller_tran log
  /\ count_reserved Q_ENTRY_SIG log = count_caller_tran log
  /\ count_reserved Q_INIT_SIG log = 0%nat
  /\ count_reserved Q_EMPTY_SIG log = 0%nat
  /\ (Datatypes.length (caller_receivers log) <= 3)%nat
  /\ Datatypes.length log
     = (Datatypes.length (caller_receivers log)
        + 2 * count_caller_tran log)%nat.
Proof.
  intros log.
  eapply (dispatch_all_exit_entry_paired MyFSM.body
            [ MyFSM.TIMEOUT_EV; {| sig := 7 |}; MyFSM.TIMEOUT_EV ]
            MyFSM.in_a _ log).
  reflexivity.
Defined.

(** X3 at [MyFSM]: its handlers keep the slot or store a handler in it. *)
Lemma never_null_never_undefined_MyFSM :
  exists st' log,
    run_machine MyFSM.body (Some MyFSM.p_state_b)
      [ MyFSM.TIMEOUT_EV; {| sig := Q_ENTRY_SIG |} ] MyFSM.fsm
    = Some (tt, st', log)
    /\ m_state st' <> None
    /\ Datatypes.length (caller_receivers log) = 2%nat.
Proof.
  apply (never_null_never_undefined MyFSM.body).
  intros h ev st Hrun. unfold after.
  destruct h; cbn [MyFSM.body];
    [unfold MyFSM.state_a | unfold MyFSM.state_b];
    destruct (sig ev =? Q_ENTRY_SIG);
    try destruct (sig ev =? Q_EXIT_SIG);
    try destruct (sig ev =? MyFSM.Q_TIMEOUT_SIG);
    cbn; try discriminate; exact Hrun.
Defined.

(** X4 at [Halt]: [KILL] while [on_live] is active. *)
Lemma tran_to_null_is_undefined_Halt :
  dispatch Halt.body Halt.KILL_EV Halt.live = None.
Proof.
  apply (tran_to_null_is_undefined Halt.body Halt.KILL_EV Halt.live
           Halt.p_live).
  - reflexivity.
  - exists tt. reflexivity.
  - reflexivity.
Defined.

(** X5 at [Halt]: [STOP] while [on_live] is active, and two more events
    afterwards. *)
Lemma null_without_tran_stops_machine_Halt :
  dispatch_all Halt.body [ Halt.STOP_EV; Halt.KILL_EV; Halt.STOP_EV ]
    Halt.live
  = Some (tt, after Halt.body Halt.p_live Halt.STOP_EV Halt.live,
          [ called Halt.p_live (caller_ev Halt.STOP_EV)
              (fst (Halt.body Halt.p_live Halt.STOP_EV Halt.live)) ]).
Proof.
  apply (null_without_tran_stops_machine Halt.body Halt.STOP_EV
           [ Halt.KILL_EV; Halt.STOP_EV ] Halt.live Halt.p_live).
  - reflexivity.
  - cbn. discriminate.
  - reflexivity.
Defined.

(** X9 at [MyFSM]: [init] and two [TIMEOUT]s. *)
Lemma run_machine_entry_exit_balance_MyFSM :
  let log :=
    [ called MyFSM.p_state_a (reserved_ev Q_INIT_SIG) Q_EVENT_HANDLED;
      called MyFSM.p_state_a (reserved_ev Q_ENTRY_SIG) Q_EVENT_HANDLED ]
    ++ MyFSM.round MyFSM.p_state_a ++ MyFSM.round MyFSM.p_state_b in
  (exists r rest,
      log = called MyFSM.p_state_a (reserved_ev Q_INIT_SIG) r :: rest)
  /\ count_reserved Q_INIT_SIG log = 1%nat
  /\ count_reserved Q_ENTRY_SIG log = S (count_reserved Q_EXIT_SIG log)
  /\ count_reserved Q_EMPTY_SIG log = 0%nat.
Proof.
  intros log.
  eapply (run_machine_entry_exit_balance MyFSM.body MyFSM.p_state_a
            [ MyFSM.TIMEOUT_EV; MyFSM.TIMEOUT_EV ] MyFSM.fsm _ log).
  reflexivity.
Defined.

(** C8, the claim as written fails at [Sneak]: [on_s] reports [GO] as
    ignored in every object, and so does [on_t]; three dispatches of [GO]
    with [on_s] active give three ignored outcomes, yet already the first
    one leaves [on_t] active, with no [EXIT] or [ENTRY] delivered: the
    machine's state has changed. *)
Lemma ignored_event_changes_state_at_Sneak :
  (forall (h : Sneak.Handler) (st : Sneak.Obj),
      fst (Sneak.body h Sneak.GO_EV st) = Q_EVENT_IGNORED)
  /\ dispatch Sneak.body Sneak.GO_EV Sneak.in_s =
     Some (tt, Sneak.in_t,
           [ called Sneak.p_s (caller_ev Sneak.GO_EV) Q_EVENT_IGNORED ])
  /\ dispatch_n Sneak.body 3 Sneak.GO_EV Sneak.in_s =
     Some (tt, Sneak.in_t,
           [ called Sneak.p_s (caller_ev Sneak.GO_EV) Q_EVENT_IGNORED;
             called Sneak.p_t (caller_ev Sneak.GO_EV) Q_EVENT_IGNORED;
             called Sneak.p_t (caller_ev Sneak.GO_EV) Q_EVENT_IGNORED ])
  /\ m_state Sneak.in_t <> m_state Sneak.in_s
  /\ ~ (forall N : nat,
          exists st',
            dispatch_n Sneak.body N Sneak.GO_EV Sneak.in_s =
            Some (tt, st',
                  repeat
                    (called Sneak.p_s (caller_ev Sneak.GO_EV) Q_EVENT_IGNORED)
                    N)
            /\ m_state st' = m_state Sneak.in_s).
Proof.
  split; [intros [] st; reflexivity |].
  split; [reflexivity |].
  split; [reflexivity |].
  split; [discriminate |].
  intros Hall. destruct (Hall 1%nat) as (st' & Hrun & Hslot).
  vm_compute in Hrun. injection Hrun as Hst. subst st'.
  discriminate.
Qed.
